(** * Trend and mean-reversion scores ([utils.py])

    A shallow embedding of [trend_score] and [mean_rev_score], in two
    readings of the numbers.

    The exact reading (the top level of this file).  Every finite float is
    an exact real number ([R]); the not-a-number marker of the input list,
    [ZeroDivisionError], the special values of [numpy.float64] arithmetic and
    Python 3's [round] are kept.  Rounding error, overflow and underflow are
    outside this reading, so it is used only for the filter and for the two
    documented examples, whose values are far from a rounding boundary.

    The binary64 reading (module [B64], facts in [B64Theory]).  Python floats
    and [numpy.float64] are IEEE 754 binary64 values (the primitive floats,
    specified by [SpecFloat]), Python ints are exact integers, and a call
    returns, raises, or leaves what is modelled:
    - [+], [-], [*], [/] and [np.sqrt] round to nearest, ties to even; an int
      operand is converted first ([OverflowError] when it is too large);
      a Python float division by zero raises [ZeroDivisionError], a
      [numpy.float64] division does not;
    - [sum] starts from the int [0] and adds from left to right (CPython up
      to 3.11; the compensated float summation of later versions is not
      modelled);
    - [v ** 2] on a Python float is the rounded square, [OverflowError] when
      a finite value overflows; [abs(rho) ** alpha] and [2 ** e] follow the
      C standard's special values of [pow], and for an integral exponent the
      correctly rounded power; any other call of [pow] is [NotModelled];
    - [int(round(v))] rounds a finite value to the nearest integer, an exact
      half to the even neighbour, and raises [ValueError] on a not-a-number
      and [OverflowError] on an infinity;
    - the elements of the input list are Python ints and floats; an int
      outside the 64-bit range, which [np.isnan] does not take as such, is
      [NotModelled]. *)

From Stdlib Require Import String.
From Stdlib Require Import Reals ZArith List Lia Lra Psatz.
From Stdlib Require Bool Floats.
Import ListNotations.

Local Open Scope R_scope.

(** ** Results of a call: a value, or a raised exception *)

Inductive exn : Type :=
| ZeroDivisionError
| ValueError
| OverflowError.


Inductive result (A : Type) : Type :=
| Ok (a : A)
| Raise (e : exn).

Arguments Ok {A} a.
Arguments Raise {A} e.

Definition bind {A B : Type} (m : result A) (k : A -> result B) : result B :=
  match m with
  | Ok a => k a
  | Raise e => Raise e
  end.

Notation "v <- m ;; k" := (bind m (fun v => k))
  (at level 61, m at next level, right associativity).

(** ** Input values *)

Inductive sample : Type :=
| NaN
| Num (r : R).

(** [np.isnan(v)] *)
Definition isnan (v : sample) : bool :=
  match v with
  | NaN => true
  | Num _ => false
  end.

(** [[v for v in x if not np.isnan(v)]]: the kept values, in their order. *)
Fixpoint dropna (x : list sample) : list R :=
  match x with
  | [] => []
  | NaN :: t => dropna t
  | Num r :: t => r :: dropna t
  end.

(** ** Python float operations *)

(** [sum(l)]: starts from 0 and adds from the left. *)
Definition py_sum (l : list R) : R := fold_left Rplus l 0.

(** [a / b] on Python floats. *)
Definition py_div (a b : R) : result R :=
  if Req_dec_T b 0 then Raise ZeroDivisionError else Ok (a / b).

(** Rounding to the nearest integer, an exact half going to the even
    neighbour. *)
Definition round_half_even (r : R) : Z :=
  let f := Zfloor r in
  let d := r - IZR f in
  if Rlt_dec d (1 / 2) then f
  else if Rlt_dec (1 / 2) d then (f + 1)%Z
  else if Z.even f then f else (f + 1)%Z.

(** [int(r)]: truncation toward zero. *)
Definition trunc (r : R) : Z :=
  if Rle_dec 0 r then Zfloor r else Zceil r.

(** ** [numpy.float64] values and operations *)

Inductive float64 : Type :=
| Fin (r : R)
| PInf
| NInf
| Nan64.

(** [a / d] where [d] is a [numpy.float64] (never a negative zero here: it is
    the result of [np.sqrt]). *)
Definition np_div (a d : R) : float64 :=
  if Req_dec_T d 0 then
    if Req_dec_T a 0 then Nan64
    else if Rlt_dec 0 a then PInf else NInf
  else Fin (a / d).

(** The sign of a finite value: 1, -1 or 0. *)
Definition sign_of (r : R) : R :=
  if Rlt_dec 0 r then 1 else if Rlt_dec r 0 then -1 else 0.

(** [np.sign] *)
Definition np_sign (v : float64) : float64 :=
  match v with
  | Fin r => Fin (sign_of r)
  | PInf => Fin 1
  | NInf => Fin (-1)
  | Nan64 => Nan64
  end.

(** [abs] *)
Definition np_abs (v : float64) : float64 :=
  match v with
  | Fin r => Fin (Rabs r)
  | PInf | NInf => PInf
  | Nan64 => Nan64
  end.

(** [v ** a] for [v] not negative ([v] is always an absolute value). *)
Definition np_pow (v : float64) (a : R) : float64 :=
  match v with
  | Fin r =>
      if Rlt_dec 0 r then Fin (Rpower r a)
      else if Rlt_dec 0 a then Fin 0
      else if Rlt_dec a 0 then PInf else Fin 1
  | PInf | NInf =>
      if Rlt_dec 0 a then PInf
      else if Rlt_dec a 0 then Fin 0 else Fin 1
  | Nan64 => if Req_dec_T a 0 then Fin 1 else Nan64
  end.

(** The sign of an infinity times a finite factor. *)
Definition inf_times (pos : bool) (r : R) : float64 :=
  if Req_dec_T r 0 then Nan64
  else if Rlt_dec 0 r then (if pos then PInf else NInf)
  else (if pos then NInf else PInf).

(** [v * w] *)
Definition np_mul (v w : float64) : float64 :=
  match v, w with
  | Nan64, _ | _, Nan64 => Nan64
  | Fin a, Fin b => Fin (a * b)
  | Fin a, PInf => inf_times true a
  | Fin a, NInf => inf_times false a
  | PInf, Fin b => inf_times true b
  | NInf, Fin b => inf_times false b
  | PInf, PInf | NInf, NInf => PInf
  | PInf, NInf | NInf, PInf => NInf
  end.

(** [round(v, 0)]: a [numpy.float64] again. *)
Definition np_round (v : float64) : float64 :=
  match v with
  | Fin r => Fin (IZR (round_half_even r))
  | _ => v
  end.

(** [int(v)] *)
Definition np_int (v : float64) : result Z :=
  match v with
  | Fin r => Ok (trunc r)
  | PInf | NInf => Raise OverflowError
  | Nan64 => Raise ValueError
  end.

(** ** [trend_score] *)

(** [sum(x)/float(n)] *)
Definition mean (x : list R) : result R :=
  py_div (py_sum x) (INR (length x)).

(** [(1+n)/2.0] *)
Definition t_mean (n : nat) : R := (1 + INR n) / 2.

(** [sum([(x[i]-x_m)*(i+1-t_m) for i in range(n)])] *)
Definition numr (x : list R) (x_m t_m : R) : R :=
  py_sum (map (fun i => (nth i x 0 - x_m) * (INR i + 1 - t_m))
              (seq 0 (length x))).

(** [sum([(x[i]-x_m)**2 for i in range(n)])] *)
Definition sq_dev (x : list R) (x_m : R) : R :=
  py_sum (map (fun i => (nth i x 0 - x_m) ^ 2) (seq 0 (length x))).

(** [sum([(i+1-t_m)**2 for i in range(n)])] *)
Definition sq_pos (n : nat) (t_m : R) : R :=
  py_sum (map (fun i => (INR i + 1 - t_m) ^ 2) (seq 0 n)).

(** [np.sqrt(... * ...)] *)
Definition deno (x : list R) (x_m t_m : R) : R :=
  sqrt (sq_dev x x_m * sq_pos (length x) t_m).

(** [int(round(100 * np.sign(rho) * abs(rho)**alpha, 0))] *)
Definition score_of_rho (rho : float64) (alpha : R) : result Z :=
  np_int (np_round
            (np_mul (np_mul (Fin 100) (np_sign rho))
                    (np_pow (np_abs rho) alpha))).

(** The body of [trend_score] after the filter. *)
Definition trend_core (x : list R) (alpha : R) : result Z :=
  x_m <- mean x ;;
  let t_m := t_mean (length x) in
  let rho := np_div (numr x x_m t_m) (deno x x_m t_m) in
  score_of_rho rho alpha.

Definition trend_score (x : list sample) (alpha : R) : result Z :=
  trend_core (dropna x) alpha.

(** ** [mean_rev_score] *)

(** [sum([(x[i]-x[i-1])**2 for i in range(1,n)])] *)
Definition qv (x : list R) : R :=
  py_sum (map (fun i => (nth i x 0 - nth (i - 1) x 0) ^ 2)
              (seq 1 (length x - 1))).

(** The body of [mean_rev_score] after the filter.  The divisor [n-1] is
    reached only when [n >= 1]. *)
Definition mean_rev_core (x : list R) (beta : R) : result Z :=
  let q := qv x in
  x_m <- mean x ;;
  x_s <- py_div (sq_dev x x_m) (INR (length x) - 1) ;;
  e <- py_div (- beta * x_s) q ;;
  Ok (round_half_even (100 * Rpower 2 e)).

Definition mean_rev_score (x : list sample) (beta : R) : result Z :=
  mean_rev_core (dropna x) beta.

(** The exponent [-beta*x_s/qv] the call computes, when it gets that far. *)
Definition mr_exponent (x : list sample) (beta : R) : result R :=
  let x := dropna x in
  x_m <- mean x ;;
  x_s <- py_div (sq_dev x x_m) (INR (length x) - 1) ;;
  py_div (- beta * x_s) (qv x).

(** The defaults of the two signatures. *)
Definition default_alpha : R := 3.
Definition default_beta : R := 15.

(** ** Notions the statements use *)

(** The real value [100 * sign(rho) * |rho|^alpha]; it is 0 at [rho = 0]. *)
Definition trend_value (rho alpha : R) : R :=
  100 * sign_of rho * Rpower (Rabs rho) alpha.

(** The value of [x_m] when the list is not empty. *)
Definition mean_value (x : list R) : R := py_sum x / INR (length x).

(** The real value [100 * 2^e] of the mean-reversion score. *)
Definition mean_rev_value (e : R) : R := 100 * Rpower 2 e.

(** [z] is an integer nearest to [v], and the even one at an exact half. *)
Definition nearest_even (v : R) (z : Z) : Prop :=
  Rabs (IZR z - v) <= 1 / 2 /\ (Rabs (IZR z - v) = 1 / 2 -> Z.even z = true).

(** Rounding to the nearest integer with an exact half going away from zero,
    the rule the specification names. *)
Definition round_half_away (r : R) : Z :=
  if Rle_dec 0 r then Zfloor (r + 1 / 2) else Zceil (r - 1 / 2).

(** The compacted values with their positions [1..n']. *)
Definition positioned (x : list R) : list (R * nat) :=
  combine x (seq 1 (length x)).

(** * The binary64 reading *)

Module B64.

Import Bool Floats.
Local Close Scope R_scope.

(** What a call does: it returns a value, raises an exception, or leaves the
    part of the language library that is modelled. *)
Inductive outcome (A : Type) : Type :=
| Returns (a : A)
| Raises (e : exn)
| NotModelled.

Arguments Returns {A} a.
Arguments Raises {A} e.
Arguments NotModelled {A}.

Definition obind {A B : Type} (m : outcome A) (k : A -> outcome B)
  : outcome B :=
  match m with
  | Returns a => k a
  | Raises e => Raises e
  | NotModelled => NotModelled
  end.

Notation "v <~ m ;; k" := (obind m (fun v => k))
  (at level 61, m at next level, right associativity).

(** A function applied to the returned value. *)
Definition omap {A B : Type} (f : A -> B) (m : outcome A) : outcome B :=
  match m with
  | Returns a => Returns (f a)
  | Raises e => Raises e
  | NotModelled => NotModelled
  end.

(** An element of the input list: a Python int or a Python float. *)
Inductive num : Type :=
| PyInt (z : Z)
| PyFloat (f : float).

(** The binary64 value nearest to a positive integer. *)
Definition F64_of_pos (p : positive) : float :=
  if (Zpos p <? 2 ^ 62)%Z then of_uint63 (Uint63.of_Z (Zpos p))
  else SF2Prim (binary_round prec emax false p 0).

Definition F64_of_Z (z : Z) : float :=
  match z with
  | Z0 => zero
  | Zpos p => F64_of_pos p
  | Zneg p => (- F64_of_pos p)%float
  end.

(** The conversion of an int operand to a float. *)
Definition float_of_int (z : Z) : outcome float :=
  let f := F64_of_Z z in
  if is_infinity f then Raises OverflowError else Returns f.

Definition to_float (a : num) : outcome float :=
  match a with
  | PyInt z => float_of_int z
  | PyFloat f => Returns f
  end.

(** The ints [np.isnan] takes without a conversion error. *)
Definition int64_range (z : Z) : bool := (Z.abs z <? 2 ^ 63)%Z.

(** [[v for v in x if not np.isnan(v)]] *)
Fixpoint dropna (x : list num) : outcome (list num) :=
  match x with
  | [] => Returns []
  | PyInt z :: t =>
      if int64_range z then r <~ dropna t ;; Returns (PyInt z :: r)
      else NotModelled
  | PyFloat f :: t =>
      if is_nan f then dropna t
      else r <~ dropna t ;; Returns (PyFloat f :: r)
  end.

(** [a + b] *)
Definition py_add (a b : num) : outcome num :=
  match a, b with
  | PyInt u, PyInt v => Returns (PyInt (u + v))
  | _, _ => f <~ to_float a ;; g <~ to_float b ;; Returns (PyFloat (f + g)%float)
  end.

(** [a - b] *)
Definition py_sub (a b : num) : outcome num :=
  match a, b with
  | PyInt u, PyInt v => Returns (PyInt (u - v))
  | _, _ => f <~ to_float a ;; g <~ to_float b ;; Returns (PyFloat (f - g)%float)
  end.

(** [a * b] *)
Definition py_mul (a b : num) : outcome num :=
  match a, b with
  | PyInt u, PyInt v => Returns (PyInt (u * v))
  | _, _ => f <~ to_float a ;; g <~ to_float b ;; Returns (PyFloat (f * g)%float)
  end.

(** [a / b] with a float operand: both operands are converted, then a zero
    divisor raises. *)
Definition py_div (a b : num) : outcome float :=
  f <~ to_float a ;;
  g <~ to_float b ;;
  if is_zero g then Raises ZeroDivisionError else Returns (f / g)%float.

(** [a ** 2]: exact on an int; on a float the rounded square, and
    [OverflowError] when a finite value has an infinite square. *)
Definition py_sq (a : num) : outcome num :=
  match a with
  | PyInt z => Returns (PyInt (z * z))
  | PyFloat f =>
      let r := (f * f)%float in
      if is_finite f && is_infinity r then Raises OverflowError
      else Returns (PyFloat r)
  end.

(** [sum(l)]: starts from the int 0 and adds from the left. *)
Fixpoint py_sum_from (acc : num) (l : list num) : outcome num :=
  match l with
  | [] => Returns acc
  | a :: t => s <~ py_add acc a ;; py_sum_from s t
  end.

Definition py_sum (l : list num) : outcome num := py_sum_from (PyInt 0) l.

(** [[f(i) for i in l]], where [f] may raise. *)
Fixpoint comprehension {A B : Type} (f : A -> outcome B) (l : list A)
  : outcome (list B) :=
  match l with
  | [] => Returns []
  | a :: t => b <~ f a ;; r <~ comprehension f t ;; Returns (b :: r)
  end.

(** [x[i]] for an index in range. *)
Definition item (x : list num) (i : nat) : num := nth i x (PyInt 0).

(** The integer a float is equal to, when there is one. *)
Definition integral (y : float) : option Z :=
  match Prim2SF y with
  | S754_zero _ => Some 0%Z
  | S754_finite s m e =>
      if (0 <=? e)%Z then Some (cond_Zopp s (Zpos m * 2 ^ e))
      else if (Zpos m mod 2 ^ (- e) =? 0)%Z
           then Some (cond_Zopp s (Zpos m / 2 ^ (- e)))
           else None
  | _ => None
  end.

(** The power [x^k] of a finite non-zero [x] with an integer exponent: the
    exact power rounded to the nearest float. *)
Definition pow_int (x : float) (k : Z) : float :=
  match Prim2SF x with
  | S754_finite s m e =>
      let n := Z.abs k in
      let sgn := s && Z.odd k in
      match (Zpos m ^ n)%Z with
      | Zpos p =>
          if (0 <=? k)%Z then SF2Prim (binary_round prec emax sgn p (e * n))
          else SF2Prim (SFdiv prec emax (S754_finite false 1 0)
                              (S754_finite sgn p (e * n)))
      | _ => nan
      end
  | _ => nan
  end.

(** The C library's [pow(x, y)]: the values the C standard fixes, and the
    rounded exact power for an integral [y]; [None] elsewhere. *)
Definition c_pow (x y : float) : option float :=
  if is_zero y then Some one
  else if (x =? one)%float then Some one
  else if is_nan x || is_nan y then Some nan
  else if is_infinity y then
    (if (abs x =? one)%float then Some one
     else if Bool.eqb (zero <? y)%float (one <? abs x)%float
          then Some infinity else Some zero)
  else
    match integral y with
    | Some k =>
        if is_zero x then
          (if (k <? 0)%Z
           then Some (if Z.odd k then (one / x)%float else infinity)
           else Some (if Z.odd k then x else zero))
        else if is_infinity x then
          (if (k <? 0)%Z
           then Some (if Z.odd k && get_sign x then neg_zero else zero)
           else Some (if Z.odd k && get_sign x then neg_infinity
                      else infinity))
        else if (k =? 1)%Z then Some x
        else Some (pow_int x k)
    | None =>
        if is_zero x then Some (if (y <? zero)%float then infinity else zero)
        else if is_infinity x then
          Some (if (y <? zero)%float then zero else infinity)
        else if (x <? zero)%float then Some nan
        else None
    end.

(** [x ** y] on [numpy.float64]: no exception. *)
Definition np_pow (x y : float) : outcome float :=
  match c_pow x y with
  | Some r => Returns r
  | None => NotModelled
  end.

(** [2 ** e] on Python floats: an overflow raises. *)
Definition py_pow2 (e : float) : outcome float :=
  match c_pow two e with
  | Some r =>
      if is_finite e && is_infinity r then Raises OverflowError
      else Returns r
  | None => NotModelled
  end.

(** [np.sign] *)
Definition np_sign (v : float) : float :=
  if is_nan v then v
  else if (zero <? v)%float then one
  else if (v <? zero)%float then (- one)%float
  else zero.

(** The integer nearest to [m * 2^e], an exact half going to the even
    neighbour. *)
Definition rhe_dyadic (m e : Z) : Z :=
  if (0 <=? e)%Z then (m * 2 ^ e)%Z
  else
    let d := (2 ^ (- e))%Z in
    let q := (m / d)%Z in
    let r := (m mod d)%Z in
    if (2 * r <? d)%Z then q
    else if (d <? 2 * r)%Z then (q + 1)%Z
    else if Z.even q then q else (q + 1)%Z.

(** [int(round(v, 0))] on a [numpy.float64] and [int(round(v))] on a Python
    float: the rounded value is an integer, and [int] reads it. *)
Definition int_round (v : float) : outcome Z :=
  match Prim2SF v with
  | S754_nan => Raises ValueError
  | S754_infinity _ => Raises OverflowError
  | S754_zero _ => Returns 0%Z
  | S754_finite s m e => Returns (cond_Zopp s (rhe_dyadic (Zpos m) e))
  end.

Definition hundred : float := 100%float.

(** ** [trend_score] *)

(** [i+1-t_m] *)
Definition position (t_m : float) (i : nat) : outcome num :=
  py_sub (PyInt (Z.of_nat i + 1)) (PyFloat t_m).

(** [x[i]-x_m] *)
Definition deviation (x : list num) (x_m : float) (i : nat) : outcome num :=
  py_sub (item x i) (PyFloat x_m).

(** [sum(x)/float(n)] *)
Definition mean (x : list num) : outcome float :=
  s <~ py_sum x ;;
  nf <~ float_of_int (Z.of_nat (length x)) ;;
  py_div s (PyFloat nf).

(** [sum([(x[i]-x_m)**2 for i in range(n)])] *)
Definition sq_dev (x : list num) (x_m : float) : outcome num :=
  sq <~ comprehension (fun i => d <~ deviation x x_m i ;; py_sq d)
                      (seq 0 (length x)) ;;
  py_sum sq.

(** Lines 44 to 50: [rho]. *)
Definition pearson_core (x : list num) : outcome float :=
  let n := length x in
  x_m <~ mean x ;;
  n1 <~ float_of_int (1 + Z.of_nat n) ;;
  let t_m := (n1 / two)%float in
  terms <~ comprehension
             (fun i => d <~ deviation x x_m i ;;
                       p <~ position t_m i ;; py_mul d p)
             (seq 0 n) ;;
  numr <~ py_sum terms ;;
  s1 <~ sq_dev x x_m ;;
  sq2 <~ comprehension (fun i => p <~ position t_m i ;; py_sq p) (seq 0 n) ;;
  s2 <~ py_sum sq2 ;;
  prod <~ py_mul s1 s2 ;;
  pf <~ to_float prod ;;
  let deno := sqrt pf in
  nu <~ to_float numr ;;
  Returns (nu / deno)%float.

(** [100 * np.sign(rho) * abs(rho)**alpha] *)
Definition trend_value (rho alpha : float) : outcome float :=
  p <~ np_pow (abs rho) alpha ;;
  Returns (hundred * np_sign rho * p)%float.

(** Line 51. *)
Definition score_of_rho (rho alpha : float) : outcome Z :=
  v <~ trend_value rho alpha ;; int_round v.

Definition pearson (x : list num) : outcome float :=
  l <~ dropna x ;; pearson_core l.

Definition trend_score (x : list num) (alpha : float) : outcome Z :=
  rho <~ pearson x ;; score_of_rho rho alpha.

(** ** [mean_rev_score] *)

(** [sum([(x[i]-x[i-1])**2 for i in range(1,n)])] *)
Definition qv (x : list num) : outcome num :=
  sq <~ comprehension
          (fun i => d <~ py_sub (item x i) (item x (i - 1)) ;; py_sq d)
          (seq 1 (length x - 1)) ;;
  py_sum sq.

(** Lines 87 to 91, up to the exponent [-beta*x_s/qv]. *)
Definition mr_exponent_core (x : list num) (beta : float) : outcome float :=
  q <~ qv x ;;
  x_m <~ mean x ;;
  ss <~ sq_dev x x_m ;;
  x_s <~ py_div ss (PyInt (Z.of_nat (length x) - 1)) ;;
  py_div (PyFloat (- beta * x_s)%float) q.

(** [100 * 2**e] *)
Definition mean_rev_value (e : float) : outcome float :=
  p <~ py_pow2 e ;; Returns (hundred * p)%float.

Definition mr_exponent (x : list num) (beta : float) : outcome float :=
  l <~ dropna x ;; mr_exponent_core l beta.

Definition mean_rev_score (x : list num) (beta : float) : outcome Z :=
  e <~ mr_exponent x beta ;;
  v <~ mean_rev_value e ;;
  int_round v.

Definition default_alpha : float := 3%float.
Definition default_beta : float := 15%float.

(** Lists of ints and of floats as inputs. *)
Definition ints (l : list Z) : list num := map PyInt l.
Definition floats (l : list float) : list num := map PyFloat l.

(** ** Notions the statements use *)

Definition sf_zero (X : spec_float) : bool :=
  match X with S754_zero _ => true | _ => false end.

Definition sf_nan (X : spec_float) : bool :=
  match X with S754_nan => true | _ => false end.

Definition sf_inf (X : spec_float) : bool :=
  match X with S754_infinity _ => true | _ => false end.

(** [Y] is the negation of [X], or both are zeros (of any sign). *)
Definition SFnegz (X Y : spec_float) : Prop :=
  Y = SFopp X \/ (sf_zero X = true /\ sf_zero Y = true).

Definition negz (f g : float) : Prop := SFnegz (Prim2SF f) (Prim2SF g).

(** The same on list elements: an int and its negation, two floats as
    above. *)
Definition nneg (a b : num) : Prop :=
  match a, b with
  | PyInt u, PyInt v => v = (- u)%Z
  | PyFloat f, PyFloat g => negz f g
  | _, _ => False
  end.

(** [-v] on a list element, and on every element of a list. *)
Definition num_opp (a : num) : num :=
  match a with
  | PyInt z => PyInt (- z)
  | PyFloat f => PyFloat (- f)%float
  end.

Definition negate (x : list num) : list num := map num_opp x.

(** Two calls do the same thing, the returned values being related. *)
Inductive orel {A B : Type} (R : A -> B -> Prop)
  : outcome A -> outcome B -> Prop :=
| orel_returns (a : A) (b : B) : R a b -> orel R (Returns a) (Returns b)
| orel_raises (e : exn) : orel R (Raises e) (Raises e)
| orel_not_modelled : orel R NotModelled NotModelled.

(** A call raises, or returns a value with the property [P]. *)
Definition ensures {A : Type} (P : A -> Prop) (o : outcome A) : Prop :=
  match o with
  | Returns a => P a
  | Raises _ => True
  | NotModelled => False
  end.

Definition any {A : Type} (a : A) : Prop := True.




(** The real number a finite float stands for. *)
Definition float_value (v : float) : R :=
  match Prim2SF v with
  | S754_finite s m e => (IZR (cond_Zopp s (Zpos m)) * powerRZ 2 e)%R
  | _ => 0%R
  end.






End B64.

(** * Auxiliary facts *)

(** ** Rounding *)

Lemma round_half_even_IZR (k : Z) : round_half_even (IZR k) = k.
Proof.
  unfold round_half_even. rewrite ZfloorZ.
  destruct (Rlt_dec (IZR k - IZR k) (1 / 2)) as [_ | H]; [reflexivity | lra].
Qed.

Lemma round_half_even_floor (r : R) :
  (Zfloor r <= round_half_even r <= Zfloor r + 1)%Z.
Proof.
  unfold round_half_even.
  destruct (Rlt_dec _ _); [lia |].
  destruct (Rlt_dec _ _); [lia |].
  destruct (Z.even _); lia.
Qed.

(** A value strictly within a half of an integer rounds to it. *)
Lemma round_half_even_near (r : R) (k : Z) :
  IZR k - 1 / 2 < r < IZR k + 1 / 2 -> round_half_even r = k.
Proof.
  intros [Hlo Hhi]. unfold round_half_even.
  pose proof (Zfloor_bound r) as [Hf1 Hf2].
  destruct (Rle_dec (IZR k) r) as [Hk | Hk].
  - assert (Zfloor r = k) as -> by (apply Zfloor_eq; lra).
    destruct (Rlt_dec (r - IZR k) (1 / 2)); [reflexivity | lra].
  - assert (Zfloor r = (k - 1)%Z) as Hfl
        by (apply Zfloor_eq; rewrite minus_IZR; lra).
    rewrite Hfl, minus_IZR.
    destruct (Rlt_dec (r - (IZR k - 1)) (1 / 2)); [lra |].
    destruct (Rlt_dec (1 / 2) (r - (IZR k - 1))); [lia | lra].
Qed.

Lemma round_half_even_mono (r s : R) :
  r <= s -> (round_half_even r <= round_half_even s)%Z.
Proof.
  intros Hrs.
  pose proof (Zfloor_le r s Hrs) as Hfl.
  destruct (Z.eq_dec (Zfloor r) (Zfloor s)) as [E | E].
  - unfold round_half_even. rewrite E.
    destruct (Rlt_dec (r - IZR (Zfloor s)) (1 / 2));
      destruct (Rlt_dec (s - IZR (Zfloor s)) (1 / 2));
      destruct (Rlt_dec (1 / 2) (r - IZR (Zfloor s)));
      destruct (Rlt_dec (1 / 2) (s - IZR (Zfloor s)));
      destruct (Z.even (Zfloor s)); try lia; lra.
  - pose proof (round_half_even_floor r). pose proof (round_half_even_floor s).
    lia.
Qed.

Lemma round_half_even_range (r : R) (a b : Z) :
  IZR a <= r <= IZR b -> (a <= round_half_even r <= b)%Z.
Proof.
  intros [Ha Hb]. split.
  - rewrite <- (round_half_even_IZR a). now apply round_half_even_mono.
  - rewrite <- (round_half_even_IZR b). now apply round_half_even_mono.
Qed.

Lemma round_half_even_opp (r : R) :
  round_half_even (- r) = (- round_half_even r)%Z.
Proof.
  pose proof (Zfloor_bound r) as [Hf1 Hf2].
  destruct (Req_dec_T r (IZR (Zfloor r))) as [E | E].
  - rewrite E, <- opp_IZR, !round_half_even_IZR. reflexivity.
  - assert (Zfloor (- r) = (- Zfloor r - 1)%Z) as Hfl.
    { apply Zfloor_eq. rewrite minus_IZR, opp_IZR. lra. }
    unfold round_half_even. rewrite Hfl, minus_IZR, opp_IZR.
    set (f := Zfloor r) in *.
    replace (Z.even (- f - 1)) with (negb (Z.even f)).
    2:{ replace (- f - 1)%Z with (Z.pred (- f)) by lia.
        rewrite Z.even_pred, Z.odd_opp, Z.negb_even. reflexivity. }
    destruct (Rlt_dec (- r - (- IZR f - 1)) (1 / 2));
      destruct (Rlt_dec (r - IZR f) (1 / 2));
      destruct (Rlt_dec (1 / 2) (- r - (- IZR f - 1)));
      destruct (Rlt_dec (1 / 2) (r - IZR f));
      destruct (Z.even f); simpl; try lia; lra.
Qed.

Lemma round_half_even_nearest (r : R) : nearest_even r (round_half_even r).
Proof.
  unfold nearest_even, round_half_even.
  pose proof (Zfloor_bound r) as [Hf1 Hf2].
  set (f := Zfloor r) in *.
  destruct (Rlt_dec (r - IZR f) (1 / 2)) as [H1 | H1].
  - split; [apply Rabs_le; lra |].
    intros E. rewrite Rabs_left1 in E by lra. lra.
  - destruct (Rlt_dec (1 / 2) (r - IZR f)) as [H2 | H2].
    + rewrite plus_IZR. split; [apply Rabs_le; lra |].
      intros E. rewrite Rabs_right in E by lra. lra.
    + destruct (Z.even f) eqn:Ev.
      * split; [apply Rabs_le; lra | auto].
      * rewrite plus_IZR. split; [apply Rabs_le; lra |].
        intros _. rewrite Z.even_add, Ev. reflexivity.
Qed.

Lemma round_half_away_tie_12 : round_half_away (12 + 1 / 2) = 13%Z.
Proof.
  unfold round_half_away.
  destruct (Rle_dec 0 (12 + 1 / 2)); [| lra].
  apply Zfloor_eq. lra.
Qed.

Lemma trunc_IZR (k : Z) : trunc (IZR k) = k.
Proof.
  unfold trunc, Zceil. rewrite <- opp_IZR, !ZfloorZ.
  destruct (Rle_dec 0 (IZR k)); lia.
Qed.

(** [int(round(v, 0))] on a finite value. *)
Lemma np_int_round_Fin (r : R) :
  np_int (np_round (Fin r)) = Ok (round_half_even r).
Proof. simpl. now rewrite trunc_IZR. Qed.

(** ** The score as a function of [rho] *)

Lemma sign_of_pos (r : R) : 0 < r -> sign_of r = 1.
Proof.
  intros H. unfold sign_of. destruct (Rlt_dec 0 r); [reflexivity | lra].
Qed.

Lemma score_of_rho_nonzero (rho alpha : R) :
  rho <> 0 ->
  score_of_rho (Fin rho) alpha = Ok (round_half_even (trend_value rho alpha)).
Proof.
  intros Hr. unfold score_of_rho, trend_value.
  cbn [np_sign np_abs np_pow].
  pose proof (Rabs_pos_lt rho Hr).
  destruct (Rlt_dec 0 (Rabs rho)); [| lra].
  cbn [np_mul]. apply np_int_round_Fin.
Qed.

(** ** The two bodies, case by case *)

Lemma mean_ok (x : list R) :
  x <> [] -> mean x = Ok (py_sum x / INR (length x)).
Proof.
  intros Hx. unfold mean, py_div.
  destruct (Req_dec_T (INR (length x)) 0) as [E | E]; [| reflexivity].
  destruct x as [| a x]; [congruence |].
  cbn [length] in E. rewrite S_INR in E. pose proof (pos_INR (length x)). lra.
Qed.

(** What [trend_core] returns once the mean is known. *)
Lemma trend_core_mean (x : list R) (alpha m : R) :
  mean x = Ok m ->
  trend_core x alpha
  = score_of_rho (np_div (numr x m (t_mean (length x)))
                         (deno x m (t_mean (length x)))) alpha.
Proof. intros H. unfold trend_core. rewrite H. reflexivity. Qed.

Lemma mean_rev_score_exponent (x : list sample) (beta : R) :
  mean_rev_score x beta
  = (e <- mr_exponent x beta ;; Ok (round_half_even (mean_rev_value e))).
Proof.
  unfold mean_rev_score, mean_rev_core, mr_exponent, mean_rev_value.
  destruct (mean (dropna x)) as [m |]; cbn [bind]; [| reflexivity].
  destruct (py_div (sq_dev (dropna x) m) _); reflexivity.
Qed.

(** With at least two values and a positive [qv] every division succeeds. *)
Lemma mr_exponent_ok (x : list sample) (beta : R) :
  (2 <= length (dropna x))%nat -> 0 < qv (dropna x) ->
  let l := dropna x in
  let m := py_sum l / INR (length l) in
  mr_exponent x beta
  = Ok (- beta * (sq_dev l m / (INR (length l) - 1)) / qv l).
Proof.
  intros Hn Hq l m. unfold mr_exponent. fold l.
  rewrite mean_ok by (intros E; unfold l in E; rewrite E in Hn; simpl in Hn; lia).
  cbn [bind]. fold m. unfold py_div.
  assert (2 <= INR (length l)) by (apply (le_INR 2); exact Hn).
  destruct (Req_dec_T (INR (length l) - 1) 0); [lra |]. cbn [bind].
  destruct (Req_dec_T (qv l) 0); [unfold l in *; lra | reflexivity].
Qed.

(** ** Evaluating the bodies on given lists *)

Lemma trend_core_eval (x : list R) (alpha m nu P : R) :
  x <> [] ->
  py_sum x / INR (length x) = m ->
  numr x m (t_mean (length x)) = nu ->
  sq_dev x m * sq_pos (length x) (t_mean (length x)) = P ->
  0 < P ->
  trend_core x alpha = score_of_rho (Fin (nu / sqrt P)) alpha.
Proof.
  intros Hx Hm Hn HP Hpos.
  rewrite (trend_core_mean x alpha m) by (rewrite mean_ok, Hm; auto).
  unfold deno. rewrite Hn, HP. unfold np_div.
  pose proof (sqrt_lt_R0 P Hpos).
  destruct (Req_dec_T (sqrt P) 0); [lra | reflexivity].
Qed.

(** Unfolds the sums of a list given by its elements. *)
Ltac sums :=
  unfold mean_value, numr, sq_dev, sq_pos, qv, t_mean, py_sum; simpl.

Lemma Rpower_nat (x : R) (n : nat) (a : R) :
  0 < x -> a = INR n -> Rpower x a = x ^ n.
Proof. intros Hx ->. now apply Rpower_pow. Qed.

Lemma sqrt_175_bounds : 13.2287 < sqrt 175 < 13.2288.
Proof.
  split.
  - rewrite <- (sqrt_pow2 13.2287) by lra. apply sqrt_lt_1; lra.
  - rewrite <- (sqrt_pow2 13.2288) by lra. apply sqrt_lt_1; lra.
Qed.

(** The correlation of [[1,3,2,4,3,5]] with its positions. *)
Lemma rho_x4_bounds : 0.8315 < 11 / sqrt 175 < 0.83153.
Proof.
  pose proof sqrt_175_bounds as [Hlo Hhi].
  assert (0 < sqrt 175) as Hs by lra.
  split.
  - apply Rmult_lt_reg_r with (sqrt 175); [assumption |].
    unfold Rdiv. rewrite Rmult_assoc, Rinv_l by lra. lra.
  - apply Rmult_lt_reg_r with (sqrt 175); [assumption |].
    unfold Rdiv. rewrite Rmult_assoc, Rinv_l by lra. lra.
Qed.

Lemma pow2_m98_bounds : 0.455 < Rpower 2 (- 9 / 8) < 0.465.
Proof.
  set (y := Rpower 2 (- 9 / 8)).
  assert (0 < y) as Hy by apply exp_pos.
  assert (y ^ 8 = / 512) as H8.
  { rewrite <- (Rpower_pow 8 y Hy). unfold y. rewrite Rpower_mult.
    replace (- 9 / 8 * INR 8) with (- INR 9) by (simpl; lra).
    rewrite Rpower_Ropp, Rpower_pow by lra. f_equal. lra. }
  split.
  - destruct (Rlt_dec 0.455 y) as [| Hn]; [assumption |].
    assert (y ^ 8 <= 0.455 ^ 8) by (apply pow_incr; lra). lra.
  - destruct (Rlt_dec y 0.465) as [| Hn]; [assumption |].
    assert (0.465 ^ 8 <= y ^ 8) by (apply pow_incr; lra). lra.
Qed.

(** * The documented examples *)

(** C6: [trend_score([1,3,2,4,3,5])] is 57 with the default [alpha = 3.0],
    and 83 with [alpha = 1]. *)
Theorem trend_score_x4 :
  trend_score [Num 1; Num 3; Num 2; Num 4; Num 3; Num 5] default_alpha
  = Ok 57%Z
  /\ trend_score [Num 1; Num 3; Num 2; Num 4; Num 3; Num 5] 1 = Ok 83%Z.
Proof.
  pose proof rho_x4_bounds as [Hlo Hhi].
  assert (forall a, trend_score [Num 1; Num 3; Num 2; Num 4; Num 3; Num 5] a
                    = Ok (round_half_even (100 * 1 * Rpower (11 / sqrt 175) a)))
    as E.
  { intros a. unfold trend_score. cbn [dropna].
    rewrite (trend_core_eval _ a 3 11 175);
      [| discriminate | sums; lra | sums; lra | sums; lra | lra].
    rewrite score_of_rho_nonzero by lra.
    unfold trend_value. rewrite sign_of_pos, Rabs_right by lra. reflexivity. }
  split; rewrite E; f_equal; apply round_half_even_near.
  - unfold default_alpha.
    rewrite (Rpower_nat _ 3) by (simpl; lra).
    assert ((11 / sqrt 175) ^ 3 <= 0.83153 ^ 3) by (apply pow_incr; lra).
    assert (0.8315 ^ 3 <= (11 / sqrt 175) ^ 3) by (apply pow_incr; lra).
    lra.
  - rewrite Rpower_1 by lra. lra.
Qed.

(** C7: [mean_rev_score([-1,1,-1,1,-1])] is 46 with the default
    [beta = 15.0]: [qv] is the sum of the squared first differences, 16,
    [x_s] the sample variance with divisor [n-1], 6/5, and the result is
    [100 * 2^(-beta*x_s/qv)] rounded. *)
Theorem mean_rev_score_x1 :
  let x := [Num (-1); Num 1; Num (-1); Num 1; Num (-1)] in
  mean_rev_score x default_beta = Ok 46%Z
  /\ qv (dropna x) = 16
  /\ sq_dev (dropna x) (- 1 / 5) / (INR (length (dropna x)) - 1) = 6 / 5
  /\ mr_exponent x default_beta = Ok (- default_beta * (6 / 5) / 16)
  /\ round_half_even (100 * Rpower 2 (- default_beta * (6 / 5) / 16)) = 46%Z.
Proof.
  intros x. unfold x.
  assert (round_half_even (100 * Rpower 2 (- default_beta * (6 / 5) / 16))
          = 46%Z) as Hround.
  { unfold default_beta.
    replace (Rpower 2 _) with (Rpower 2 (- 9 / 8)) by (f_equal; lra).
    pose proof pow2_m98_bounds. apply round_half_even_near. lra. }
  assert (mr_exponent [Num (-1); Num 1; Num (-1); Num 1; Num (-1)] default_beta
          = Ok (- default_beta * (6 / 5) / 16)) as Hexp.
  { rewrite mr_exponent_ok; [| simpl; lia | sums; lra].
    f_equal. cbn [dropna]. unfold default_beta. sums. lra. }
  repeat split.
  - rewrite mean_rev_score_exponent, Hexp. cbn [bind]. f_equal. exact Hround.
  - sums. lra.
  - sums. lra.
  - exact Hexp.
  - exact Hround.
Qed.

(** * The filter *)

Lemma dropna_map_Num (l : list R) : dropna (map Num l) = l.
Proof. induction l as [| a l IH]; simpl; [reflexivity | now rewrite IH]. Qed.

Lemma dropna_filter (x : list sample) :
  map Num (dropna x) = filter (fun v => negb (isnan v)) x.
Proof.
  induction x as [| [| r] x IH]; simpl; [reflexivity | exact IH |].
  now rewrite IH.
Qed.

Lemma dropna_idempotent (x : list sample) :
  dropna (map Num (dropna x)) = dropna x.
Proof. apply dropna_map_Num. Qed.

(** The numerator pairs the [k]-th kept value with the position [k]. *)
Lemma numr_shifted (x : list R) (m t : R) (k : nat) :
  map (fun i => (nth i x 0 - m) * (INR (i + k) + 1 - t)) (seq 0 (length x))
  = map (fun p => (fst p - m) * (INR (snd p) - t))
        (combine x (seq (S k) (length x))).
Proof.
  revert k. induction x as [| a x IH]; intros k; [reflexivity |].
  cbn [length seq combine map nth fst snd plus]. f_equal.
  - rewrite S_INR. reflexivity.
  - rewrite <- seq_shift, map_map, <- IH.
    apply map_ext. intros i. cbn [nth].
    now replace (S i + k)%nat with (i + S k)%nat by lia.
Qed.

Lemma numr_positioned (x : list R) (m t : R) :
  numr x m t
  = py_sum (map (fun p => (fst p - m) * (INR (snd p) - t)) (positioned x)).
Proof.
  unfold numr, positioned. rewrite <- numr_shifted. f_equal.
  apply map_ext. intros i. now rewrite Nat.add_0_r.
Qed.

Lemma combine_fst_snd {A B : Type} (l : list A) (l' : list B) :
  length l = length l' ->
  map fst (combine l l') = l /\ map snd (combine l l') = l'.
Proof.
  revert l'. induction l as [| a l IH]; intros [| b l'] H;
    try discriminate; [now split |].
  injection H as H. destruct (IH l' H) as [H1 H2].
  cbn [combine map fst snd]. now rewrite H1, H2.
Qed.

(** C4: both functions first drop the not-a-number entries; the kept values
    stay in their order and are paired with the positions [1..n'], and each
    score of a list is the score of its compaction. *)
Theorem nan_filtering (x : list sample) (alpha beta : R) :
  map Num (dropna x) = filter (fun v => negb (isnan v)) x
  /\ trend_score x alpha = trend_score (map Num (dropna x)) alpha
  /\ mean_rev_score x beta = mean_rev_score (map Num (dropna x)) beta
  /\ map fst (positioned (dropna x)) = dropna x
  /\ map snd (positioned (dropna x)) = seq 1 (length (dropna x))
  /\ forall m t,
       numr (dropna x) m t
       = py_sum (map (fun p => (fst p - m) * (INR (snd p) - t))
                     (positioned (dropna x))).
Proof.
  split; [apply dropna_filter |].
  split; [unfold trend_score; now rewrite dropna_idempotent |].
  split; [unfold mean_rev_score; now rewrite dropna_idempotent |].
  destruct (combine_fst_snd (dropna x) (seq 1 (length (dropna x))))
    as [H1 H2]; [now rewrite length_seq |].
  split; [exact H1 |]. split; [exact H2 |].
  intros m t. apply numr_positioned.
Qed.

(** * Facts about the binary64 reading *)

Module B64Theory.

Import Bool Floats B64.
Local Open Scope Z_scope.

(** ** Classes of binary64 values *)

Lemma compare_cont_refl (m : positive) : Pos.compare_cont Eq m m = Eq.
Proof. apply Pos.compare_cont_refl. Qed.

Lemma is_nan_SF (f : float) : is_nan f = sf_nan (Prim2SF f).
Proof.
  unfold is_nan. rewrite eqb_spec. unfold SFeqb.
  destruct (Prim2SF f) as [s | s | | s m e]; try destruct s; simpl;
    rewrite ?Z.compare_refl, ?compare_cont_refl; reflexivity.
Qed.

Lemma is_zero_SF (f : float) : is_zero f = sf_zero (Prim2SF f).
Proof.
  unfold is_zero. rewrite eqb_spec. change (Prim2SF zero) with (S754_zero false).
  destruct (Prim2SF f) as [s | s | | s m e]; try destruct s; reflexivity.
Qed.

Lemma is_infinity_SF (f : float) : is_infinity f = sf_inf (Prim2SF f).
Proof.
  unfold is_infinity. rewrite eqb_spec, abs_spec.
  change (Prim2SF infinity) with (S754_infinity false).
  destruct (Prim2SF f) as [s | s | | s m e]; try destruct s; reflexivity.
Qed.

Lemma is_finite_SF (f : float) :
  is_finite f = negb (sf_nan (Prim2SF f) || sf_inf (Prim2SF f)).
Proof. unfold is_finite. now rewrite is_nan_SF, is_infinity_SF. Qed.

Lemma nan_unique (f : float) : is_nan f = true -> f = nan.
Proof.
  rewrite is_nan_SF. intros H. apply Prim2SF_inj.
  change (Prim2SF nan) with S754_nan.
  destruct (Prim2SF f); try discriminate. reflexivity.
Qed.

(** ** Negation commutes with rounding *)

Lemma binary_round_aux_opp (s : bool) (m e : Z) (l : location) :
  SFopp (binary_round_aux prec emax s m e l)
  = binary_round_aux prec emax (negb s) m e l.
Proof.
  unfold binary_round_aux.
  destruct (shr_fexp prec emax m e l) as [mrs' e'].
  destruct (shr_fexp prec emax _ e' loc_Exact) as [mrs'' e''].
  destruct (shr_m mrs''); simpl; try reflexivity.
  destruct (_ <=? _); reflexivity.
Qed.

Lemma binary_round_opp (s : bool) (m : positive) (e : Z) :
  SFopp (binary_round prec emax s m e) = binary_round prec emax (negb s) m e.
Proof.
  unfold binary_round. destruct (shl_align _ _ _) as [mz ez].
  apply binary_round_aux_opp.
Qed.

Lemma SFopp_involutive (X : spec_float) : SFopp (SFopp X) = X.
Proof. destruct X as [s | s | | s m e]; simpl; now rewrite ?negb_involutive. Qed.

Lemma SFnegz_sym (X Y : spec_float) : SFnegz X Y -> SFnegz Y X.
Proof.
  intros [-> | [H1 H2]]; [left | right; auto].
  now rewrite SFopp_involutive.
Qed.

Lemma SFnegz_opp (X : spec_float) : SFnegz X (SFopp X).
Proof. now left. Qed.

Lemma SFnegz_zero (s s' : bool) : SFnegz (S754_zero s) (S754_zero s').
Proof. right. auto. Qed.

Lemma binary_normalize_negz (m e : Z) :
  SFnegz (binary_normalize prec emax m e false)
         (binary_normalize prec emax (- m) e false).
Proof.
  destruct m as [| p | p]; simpl.
  - apply SFnegz_zero.
  - left. now rewrite binary_round_opp.
  - left. now rewrite binary_round_opp.
Qed.

Ltac negz_cases :=
  repeat match goal with
  | H : SFnegz _ _ |- _ => destruct H as [-> | [? ?]]
  | H : sf_zero ?X = true |- _ =>
      first [ is_var X; destruct X; try discriminate H; clear H
            | simpl in H; first [ discriminate H | clear H ] ]
  end.

Ltac negz_solve :=
  simpl;
  repeat match goal with
  | s : bool |- _ => destruct s
  end; simpl;
  first [ left; reflexivity | right; split; reflexivity ].

Lemma SFadd_negz (X X' Y Y' : spec_float) :
  SFnegz X X' -> SFnegz Y Y' ->
  SFnegz (SFadd prec emax X Y) (SFadd prec emax X' Y').
Proof.
  intros HX HY.
  destruct X as [s | s | | s m e], Y as [t | t | | t n k]; negz_cases;
    try negz_solve.
  simpl SFopp. unfold SFadd.
  match goal with
  | |- SFnegz (binary_normalize _ _ ?M ?E false) (binary_normalize _ _ ?N _ false) =>
      replace N with (- M); [apply binary_normalize_negz |]
  end.
  unfold cond_Zopp; destruct s, t; cbn [negb]; lia.
Qed.

Lemma SFsub_negz (X X' Y Y' : spec_float) :
  SFnegz X X' -> SFnegz Y Y' ->
  SFnegz (SFsub prec emax X Y) (SFsub prec emax X' Y').
Proof.
  intros HX HY.
  destruct X as [s | s | | s m e], Y as [t | t | | t n k]; negz_cases;
    try negz_solve.
  simpl SFopp. unfold SFsub.
  match goal with
  | |- SFnegz (binary_normalize _ _ ?M ?E false) (binary_normalize _ _ ?N _ false) =>
      replace N with (- M); [apply binary_normalize_negz |]
  end.
  unfold cond_Zopp; destruct s, t; cbn [negb]; lia.
Qed.

Lemma SFmul_negz_l (X X' Y : spec_float) :
  SFnegz X X' -> SFnegz (SFmul prec emax X Y) (SFmul prec emax X' Y).
Proof.
  intros HX.
  destruct X as [s | s | | s m e], Y as [t | t | | t n k]; negz_cases;
    try negz_solve.
  left. simpl. rewrite binary_round_aux_opp. now destruct s, t.
Qed.

Lemma SFmul_negz_r (X Y Y' : spec_float) :
  SFnegz Y Y' -> SFnegz (SFmul prec emax X Y) (SFmul prec emax X Y').
Proof.
  intros HY.
  destruct X as [s | s | | s m e], Y as [t | t | | t n k]; negz_cases;
    try negz_solve.
  left. simpl. rewrite binary_round_aux_opp. now destruct s, t.
Qed.

Lemma SFmul_negz_same (X X' : spec_float) :
  SFnegz X X' -> SFmul prec emax X' X' = SFmul prec emax X X.
Proof.
  intros HX.
  destruct X as [s | s | | s m e]; negz_cases; simpl;
    repeat match goal with s : bool |- _ => destruct s end; reflexivity.
Qed.

Lemma SFdiv_negz_l (X X' Y : spec_float) :
  SFnegz X X' -> SFnegz (SFdiv prec emax X Y) (SFdiv prec emax X' Y).
Proof.
  intros HX.
  destruct X as [s | s | | s m e], Y as [t | t | | t n k]; negz_cases;
    try negz_solve.
  left. simpl. destruct (SFdiv_core_binary _ _ _ _ _ _) as [[mz ez] lz].
  rewrite binary_round_aux_opp. now destruct s, t.
Qed.

Lemma SFabs_negz (X X' : spec_float) : SFnegz X X' -> SFabs X' = SFabs X.
Proof.
  intros HX. destruct X as [s | s | | s m e]; negz_cases; reflexivity.
Qed.

(** ** The same on floats *)

Lemma negz_opp (f : float) : negz f (- f).
Proof. unfold negz. rewrite opp_spec. now left. Qed.

Lemma negz_sym (f g : float) : negz f g -> negz g f.
Proof. apply SFnegz_sym. Qed.

Lemma negz_opp_l (f : float) : negz (- f) f.
Proof. apply negz_sym, negz_opp. Qed.

Lemma add_negz (f f' g g' : float) :
  negz f f' -> negz g g' -> negz (f + g) (f' + g').
Proof. unfold negz. rewrite !add_spec. apply SFadd_negz. Qed.

Lemma sub_negz (f f' g g' : float) :
  negz f f' -> negz g g' -> negz (f - g) (f' - g').
Proof. unfold negz. rewrite !sub_spec. apply SFsub_negz. Qed.

Lemma mul_negz_l (f f' g : float) : negz f f' -> negz (f * g) (f' * g).
Proof. unfold negz. rewrite !mul_spec. apply SFmul_negz_l. Qed.

Lemma mul_negz_r (f g g' : float) : negz g g' -> negz (f * g) (f * g').
Proof. unfold negz. rewrite !mul_spec. apply SFmul_negz_r. Qed.

Lemma div_negz_l (f f' g : float) : negz f f' -> negz (f / g) (f' / g).
Proof. unfold negz. rewrite !div_spec. apply SFdiv_negz_l. Qed.

Lemma mul_negz_same (f f' : float) : negz f f' -> (f' * f' = f * f)%float.
Proof.
  intros H. apply Prim2SF_inj. rewrite !mul_spec. now apply SFmul_negz_same.
Qed.

Lemma abs_negz (f f' : float) : negz f f' -> abs f' = abs f.
Proof.
  intros H. apply Prim2SF_inj. rewrite !abs_spec. now apply SFabs_negz.
Qed.

Lemma SFnegz_class (X X' : spec_float) :
  SFnegz X X' ->
  sf_nan X' = sf_nan X /\ sf_zero X' = sf_zero X /\ sf_inf X' = sf_inf X.
Proof. intros H. destruct X; negz_cases; auto. Qed.

Lemma negz_is_nan (f f' : float) : negz f f' -> is_nan f' = is_nan f.
Proof. intros H. rewrite !is_nan_SF. now apply SFnegz_class. Qed.

Lemma negz_is_zero (f f' : float) : negz f f' -> is_zero f' = is_zero f.
Proof. intros H. rewrite !is_zero_SF. now apply SFnegz_class. Qed.

Lemma negz_is_infinity (f f' : float) :
  negz f f' -> is_infinity f' = is_infinity f.
Proof. intros H. rewrite !is_infinity_SF. now apply SFnegz_class. Qed.

Lemma negz_is_finite (f f' : float) : negz f f' -> is_finite f' = is_finite f.
Proof.
  intros H. unfold is_finite.
  now rewrite (negz_is_nan _ _ H), (negz_is_infinity _ _ H).
Qed.

(** ** Related outcomes *)

Lemma orel_bind {A A' B B' : Type} (R : A -> A' -> Prop) (S : B -> B' -> Prop)
    (m : outcome A) (m' : outcome A') (k : A -> outcome B)
    (k' : A' -> outcome B') :
  orel R m m' -> (forall a a', R a a' -> orel S (k a) (k' a')) ->
  orel S (obind m k) (obind m' k').
Proof. intros [a b Hab | e |] Hk; simpl; [auto | constructor | constructor]. Qed.

Lemma orel_refl {A : Type} (m : outcome A) : orel eq m m.
Proof. destruct m; now constructor. Qed.

Lemma orel_eq {A : Type} (m m' : outcome A) : orel eq m m' -> m = m'.
Proof. intros [a b -> | e |]; reflexivity. Qed.

Lemma orel_of_eq {A : Type} (m m' : outcome A) : m = m' -> orel eq m m'.
Proof. intros ->. apply orel_refl. Qed.

Lemma Forall2_eq {A : Type} (l l' : list A) : Forall2 eq l l' -> l = l'.
Proof. induction 1; congruence. Qed.

Lemma comprehension_orel {A B B' : Type} (R : B -> B' -> Prop)
    (f : A -> outcome B) (f' : A -> outcome B') (l : list A) :
  (forall i, In i l -> orel R (f i) (f' i)) ->
  orel (Forall2 R) (comprehension f l) (comprehension f' l).
Proof.
  induction l as [| a l IH]; intros H; simpl.
  - constructor. constructor.
  - apply (orel_bind R); [apply H; now left |].
    intros b b' Hb. apply (orel_bind (Forall2 R)).
    + apply IH. intros i Hi. apply H. now right.
    + intros r r' Hr. constructor. now constructor.
Qed.

Lemma comprehension_ext {A B : Type} (f f' : A -> outcome B) (l : list A) :
  (forall i, In i l -> f i = f' i) -> comprehension f l = comprehension f' l.
Proof.
  intros H. apply orel_eq.
  assert (orel (Forall2 eq) (comprehension f l) (comprehension f' l)) as Hc.
  { apply comprehension_orel. intros i Hi. rewrite (H i Hi). apply orel_refl. }
  destruct Hc as [a b Hab | e |]; constructor. now apply Forall2_eq.
Qed.

(** ** The operations on negated operands *)

Lemma float_of_int_negz (u : Z) :
  orel negz (float_of_int u) (float_of_int (- u)).
Proof.
  unfold float_of_int.
  assert (negz (F64_of_Z u) (F64_of_Z (- u))) as H.
  { destruct u as [| p | p]; simpl.
    - right. split; reflexivity.
    - apply negz_opp.
    - apply negz_opp_l. }
  rewrite (negz_is_infinity _ _ H).
  destruct (is_infinity (F64_of_Z u)); now constructor.
Qed.

Lemma to_float_nneg (a a' : num) :
  nneg a a' -> orel negz (to_float a) (to_float a').
Proof.
  destruct a as [u | f], a' as [v | g]; simpl; try contradiction.
  - intros ->. apply float_of_int_negz.
  - intros H. now constructor.
Qed.

Ltac float_op lem :=
  apply (orel_bind negz); [now apply to_float_nneg |];
  intros ? ? ?; apply (orel_bind negz); [now apply to_float_nneg |];
  intros ? ? ?; constructor; simpl; now apply lem.

Lemma py_add_nneg (a a' b b' : num) :
  nneg a a' -> nneg b b' -> orel nneg (py_add a b) (py_add a' b').
Proof.
  intros Ha Hb.
  destruct a as [u | f], a' as [u' | f']; try contradiction;
    destruct b as [v | g], b' as [v' | g']; try contradiction;
    unfold py_add; try float_op add_negz.
  simpl in Ha, Hb. subst. constructor. simpl. lia.
Qed.

Lemma py_sub_nneg (a a' b b' : num) :
  nneg a a' -> nneg b b' -> orel nneg (py_sub a b) (py_sub a' b').
Proof.
  intros Ha Hb.
  destruct a as [u | f], a' as [u' | f']; try contradiction;
    destruct b as [v | g], b' as [v' | g']; try contradiction;
    unfold py_sub; try float_op sub_negz.
  simpl in Ha, Hb. subst. constructor. simpl. lia.
Qed.

Lemma py_mul_nneg_l (a a' b : num) :
  nneg a a' -> orel nneg (py_mul a b) (py_mul a' b).
Proof.
  intros Ha.
  destruct a as [u | f], a' as [u' | f']; try contradiction;
    destruct b as [v | g]; unfold py_mul.
  - simpl in Ha. subst. constructor. simpl. lia.
  - apply (orel_bind negz); [now apply to_float_nneg |].
    intros x x' Hx. simpl. constructor. simpl. now apply mul_negz_l.
  - apply (orel_bind negz); [now apply to_float_nneg |].
    intros x x' Hx. apply (orel_bind eq); [apply orel_refl |].
    intros y y' <-. constructor. simpl. now apply mul_negz_l.
  - simpl. constructor. simpl. now apply mul_negz_l.
Qed.

Lemma py_sq_nneg (a a' : num) : nneg a a' -> py_sq a' = py_sq a.
Proof.
  destruct a as [u | f], a' as [u' | f']; simpl; try contradiction.
  - intros ->. do 2 f_equal. lia.
  - intros H. now rewrite (mul_negz_same _ _ H), (negz_is_finite _ _ H).
Qed.

Lemma py_div_nneg_l (a a' b : num) :
  nneg a a' -> orel negz (py_div a b) (py_div a' b).
Proof.
  intros Ha. unfold py_div.
  apply (orel_bind negz); [now apply to_float_nneg |].
  intros x x' Hx. apply (orel_bind eq); [apply orel_refl |].
  intros y y' <-. destruct (is_zero y); constructor. now apply div_negz_l.
Qed.

Lemma py_sum_from_nneg (l l' : list num) :
  Forall2 nneg l l' -> forall acc acc', nneg acc acc' ->
  orel nneg (py_sum_from acc l) (py_sum_from acc' l').
Proof.
  induction 1 as [| a a' l l' Ha Hl IH]; intros acc acc' Hacc; simpl.
  - now constructor.
  - apply (orel_bind nneg); [now apply py_add_nneg |].
    intros s s' Hs. now apply IH.
Qed.

Lemma py_sum_nneg (l l' : list num) :
  Forall2 nneg l l' -> orel nneg (py_sum l) (py_sum l').
Proof. intros H. apply py_sum_from_nneg; [assumption | reflexivity]. Qed.

Lemma item_nneg (x x' : list num) (i : nat) :
  Forall2 nneg x x' -> nneg (item x i) (item x' i).
Proof.
  intros H. revert i. unfold item.
  induction H as [| a a' l l' Ha Hl IH]; intros [| i]; simpl; auto.
Qed.

Lemma Forall2_nneg_length (x x' : list num) :
  Forall2 nneg x x' -> length x' = length x.
Proof. intros H. symmetry. now apply (Forall2_length H). Qed.

Lemma mean_nneg (x x' : list num) :
  Forall2 nneg x x' -> orel negz (mean x) (mean x').
Proof.
  intros H. unfold mean. rewrite (Forall2_nneg_length _ _ H).
  apply (orel_bind nneg); [now apply py_sum_nneg |].
  intros s s' Hs. apply (orel_bind eq); [apply orel_refl |].
  intros nf nf' <-. now apply py_div_nneg_l.
Qed.

Lemma deviation_nneg (x x' : list num) (m m' : float) (i : nat) :
  Forall2 nneg x x' -> negz m m' ->
  orel nneg (deviation x m i) (deviation x' m' i).
Proof.
  intros H Hm. unfold deviation.
  apply py_sub_nneg; [now apply item_nneg | exact Hm].
Qed.

Lemma sq_dev_nneg (x x' : list num) (m m' : float) :
  Forall2 nneg x x' -> negz m m' -> sq_dev x' m' = sq_dev x m.
Proof.
  intros H Hm. unfold sq_dev. rewrite (Forall2_nneg_length _ _ H).
  f_equal. apply comprehension_ext. intros i _.
  apply orel_eq. apply (orel_bind (fun a b => nneg b a)).
  - assert (orel nneg (deviation x m i) (deviation x' m' i)) as Hd
        by now apply deviation_nneg.
    destruct Hd; now constructor.
  - intros d' d Hd. apply orel_of_eq. now apply py_sq_nneg.
Qed.



Lemma int64_range_opp (z : Z) : int64_range (- z) = int64_range z.
Proof. unfold int64_range. now rewrite Z.abs_opp. Qed.

Lemma dropna_nneg (x x' : list num) :
  Forall2 nneg x x' -> orel (Forall2 nneg) (dropna x) (dropna x').
Proof.
  induction 1 as [| a a' l l' Ha Hl IH]; simpl.
  - constructor. constructor.
  - destruct a as [u | f], a' as [u' | f']; try contradiction; simpl in Ha.
    + subst. rewrite int64_range_opp.
      destruct (int64_range u); [| constructor].
      apply (orel_bind (Forall2 nneg)); [exact IH |].
      intros r r' Hr. constructor. constructor; [reflexivity | exact Hr].
    + rewrite (negz_is_nan _ _ Ha).
      destruct (is_nan f); [exact IH |].
      apply (orel_bind (Forall2 nneg)); [exact IH |].
      intros r r' Hr. constructor. constructor; [exact Ha | exact Hr].
Qed.


Lemma negate_nneg (x : list num) : Forall2 nneg x (negate x).
Proof.
  induction x as [| a x IH]; simpl; constructor; [| exact IH].
  destruct a as [u | f]; simpl; [reflexivity | apply negz_opp].
Qed.

(** ** The score as a function of [rho] *)

Lemma ltb_zero_l (f : float) :
  (zero <? f)%float
  = match Prim2SF f with
    | S754_finite false _ _ | S754_infinity false => true
    | _ => false
    end.
Proof.
  rewrite ltb_spec. change (Prim2SF zero) with (S754_zero false).
  destruct (Prim2SF f) as [s | s | | s m e]; try destruct s; reflexivity.
Qed.

Lemma ltb_zero_r (f : float) :
  (f <? zero)%float
  = match Prim2SF f with
    | S754_finite true _ _ | S754_infinity true => true
    | _ => false
    end.
Proof.
  rewrite ltb_spec. change (Prim2SF zero) with (S754_zero false).
  destruct (Prim2SF f) as [s | s | | s m e]; try destruct s; reflexivity.
Qed.

Lemma np_sign_negz (r r' : float) : negz r r' -> negz (np_sign r) (np_sign r').
Proof.
  intros H. unfold np_sign.
  rewrite (negz_is_nan _ _ H), !ltb_zero_l, !ltb_zero_r, is_nan_SF.
  unfold negz in H.
  remember (Prim2SF r) as X. remember (Prim2SF r') as X'.
  destruct X as [s | s | | s m e]; negz_cases; simpl;
    try (unfold negz; rewrite <- HeqX, <- HeqX'; now left);
    repeat match goal with s : bool |- _ => destruct s end;
    first [ now left | right; split; reflexivity ].
Qed.

Lemma int_round_negz (v v' : float) :
  negz v v' -> orel (fun z z' => z' = - z) (int_round v) (int_round v').
Proof.
  unfold negz, int_round. intros H.
  remember (Prim2SF v) as X. remember (Prim2SF v') as X'.
  destruct X as [s | s | | s m e]; negz_cases; simpl; constructor;
    try reflexivity.
  destruct s; simpl; lia.
Qed.

Lemma score_of_rho_negz (r r' alpha : float) :
  negz r r' ->
  orel (fun z z' => z' = - z) (score_of_rho r alpha) (score_of_rho r' alpha).
Proof.
  intros H. unfold score_of_rho, trend_value.
  rewrite (abs_negz _ _ H).
  destruct (np_pow (abs r) alpha) as [p | e |]; simpl; try constructor.
  apply int_round_negz, mul_negz_l, mul_negz_r, np_sign_negz, H.
Qed.

Lemma pearson_core_nneg (x x' : list num) :
  Forall2 nneg x x' -> orel negz (pearson_core x) (pearson_core x').
Proof.
  intros H. unfold pearson_core. rewrite (Forall2_nneg_length _ _ H).
  apply (orel_bind negz); [now apply mean_nneg |].
  intros m m' Hm. apply (orel_bind eq); [apply orel_refl |].
  intros n1 ? <-. cbv zeta.
  apply (orel_bind (Forall2 nneg)).
  { apply comprehension_orel. intros i _.
    apply (orel_bind nneg); [now apply deviation_nneg |].
    intros d d' Hd. apply (orel_bind eq); [apply orel_refl |].
    intros p ? <-. now apply py_mul_nneg_l. }
  intros terms terms' Ht.
  apply (orel_bind nneg); [now apply py_sum_nneg |].
  intros nu nu' Hnu. rewrite (sq_dev_nneg _ _ _ _ H Hm).
  apply (orel_bind eq); [apply orel_refl |]. intros s1 ? <-.
  apply (orel_bind eq); [apply orel_refl |]. intros sq2 ? <-.
  apply (orel_bind eq); [apply orel_refl |]. intros s2 ? <-.
  apply (orel_bind eq); [apply orel_refl |]. intros prod ? <-.
  apply (orel_bind eq); [apply orel_refl |]. intros pf ? <-.
  apply (orel_bind negz); [now apply to_float_nneg |].
  intros f f' Hf. constructor. now apply div_negz_l.
Qed.

Lemma trend_score_nneg (x x' : list num) (alpha : float) :
  Forall2 nneg x x' ->
  orel (fun z z' => z' = - z) (trend_score x alpha) (trend_score x' alpha).
Proof.
  intros H. unfold trend_score, pearson.
  apply (orel_bind negz).
  - apply (orel_bind (Forall2 nneg)); [now apply dropna_nneg |].
    intros l l' Hl. now apply pearson_core_nneg.
  - intros r r' Hr. now apply score_of_rho_negz.
Qed.

Lemma orel_opp_omap (m m' : outcome Z) :
  orel (fun z z' => z' = - z) m m' -> m' = omap Z.opp m.
Proof. intros [a b -> | e |]; reflexivity. Qed.


(** * Lists of identical values *)

(** ** Calls that raise or return *)

Lemma ensures_bind {A B : Type} (P : A -> Prop) (Q : B -> Prop)
    (m : outcome A) (k : A -> outcome B) :
  ensures P m -> (forall a, P a -> ensures Q (k a)) -> ensures Q (obind m k).
Proof. destruct m; simpl; auto. Qed.

Lemma ensures_weaken {A : Type} (P Q : A -> Prop) (m : outcome A) :
  ensures P m -> (forall a, P a -> Q a) -> ensures Q m.
Proof. destruct m; simpl; auto. Qed.



Lemma float_of_int_any (z : Z) : ensures any (float_of_int z).
Proof. unfold float_of_int. now destruct (is_infinity _). Qed.

Lemma to_float_any (a : num) : ensures any (to_float a).
Proof. destruct a; [apply float_of_int_any | exact I]. Qed.

Ltac any_op :=
  apply (ensures_bind any); [apply to_float_any |]; intros ? _;
  apply (ensures_bind any); [apply to_float_any |]; intros ? _; exact I.



Lemma py_mul_any (a b : num) : ensures any (py_mul a b).
Proof. destruct a, b; unfold py_mul; first [exact I | any_op]. Qed.






(** ** Zeros and not-a-numbers *)


















Lemma int_round_nan : int_round nan = Raises ValueError.
Proof. reflexivity. Qed.





(** * Rounding to an integer *)

Lemma IZR_pow2 (e : Z) : 0 <= e -> IZR (2 ^ e) = powerRZ 2 e.
Proof.
  intros He. destruct e as [| p | p]; [reflexivity | | lia].
  change (2 ^ Z.pos p) with (Z.pow_pos 2 p). apply Zpower_pos_powerRZ.
Qed.

Lemma powerRZ_2_neg (e : Z) : e < 0 -> powerRZ 2 e = (/ IZR (2 ^ (- e)))%R.
Proof.
  intros He. rewrite IZR_pow2 by lia.
  destruct e as [| p | p]; try lia. reflexivity.
Qed.

Lemma pow2_pos (e : Z) : 0 <= e -> 0 < 2 ^ e.
Proof. intros. now apply Z.pow_pos_nonneg. Qed.

(** [rhe_dyadic] is [round_half_even] on the dyadic number [m * 2^e]. *)
Lemma rhe_dyadic_spec (m e : Z) :
  rhe_dyadic m e = round_half_even (IZR m * powerRZ 2 e).
Proof.
  unfold rhe_dyadic. destruct (Z.leb_spec 0 e) as [He | He].
  - rewrite <- IZR_pow2, <- mult_IZR by assumption.
    symmetry. apply round_half_even_IZR.
  - rewrite powerRZ_2_neg by assumption.
    set (d := 2 ^ (- e)).
    assert (0 < d) as Hd by (apply pow2_pos; lia).
    pose proof (Z.div_mod m d ltac:(lia)) as Hm.
    pose proof (Z.mod_pos_bound m d Hd) as Hr.
    set (q := m / d) in *. set (r := m mod d) in *.
    assert (0 < IZR d)%R as HD by now apply IZR_lt.
    assert (IZR m * / IZR d = IZR q + IZR r / IZR d)%R as Hx.
    { rewrite Hm, plus_IZR, mult_IZR. field. lra. }
    assert (0 <= IZR r / IZR d < 1)%R as Hfrac.
    { split.
      - apply Rmult_le_pos; [apply IZR_le; lia |].
        apply Rlt_le, Rinv_0_lt_compat, HD.
      - apply (Rmult_lt_reg_r (IZR d)); [exact HD |].
        unfold Rdiv. rewrite Rmult_assoc, Rinv_l, Rmult_1_r, Rmult_1_l by lra.
        apply IZR_lt. lia. }
    assert (forall k : Z, (IZR r / IZR d < IZR k / 2)%R <-> 2 * r < k * d)
      as Hlt.
    { intros k. split; intros H.
      - apply lt_IZR. rewrite !mult_IZR.
        apply (Rmult_lt_compat_r (IZR d)) in H; [| exact HD].
        unfold Rdiv in H. rewrite Rmult_assoc, Rinv_l, Rmult_1_r in H by lra.
        lra.
      - apply IZR_lt in H. rewrite !mult_IZR in H.
        apply (Rmult_lt_reg_r (IZR d)); [exact HD |].
        unfold Rdiv. rewrite Rmult_assoc, Rinv_l, Rmult_1_r by lra. lra. }
    assert (forall k : Z, (IZR k / 2 < IZR r / IZR d)%R <-> k * d < 2 * r)
      as Hgt.
    { intros k. split; intros H.
      - apply lt_IZR. rewrite !mult_IZR.
        apply (Rmult_lt_compat_r (IZR d)) in H; [| exact HD].
        unfold Rdiv in H.
        rewrite (Rmult_assoc (IZR r)), Rinv_l, Rmult_1_r in H by lra.
        lra.
      - apply IZR_lt in H. rewrite !mult_IZR in H.
        apply (Rmult_lt_reg_r (IZR d)); [exact HD |].
        unfold Rdiv.
        rewrite (Rmult_assoc (IZR r)), Rinv_l, Rmult_1_r by lra. lra. }
    unfold round_half_even. rewrite Hx.
    assert (Zfloor (IZR q + IZR r / IZR d) = q) as ->
        by (apply Zfloor_eq; lra).
    replace (IZR q + IZR r / IZR d - IZR q)%R with (IZR r / IZR d)%R by lra.
    pose proof (Hlt 1) as H1. pose proof (Hgt 1) as H2.
    replace (IZR 1 / 2)%R with (1 / 2)%R in H1, H2 by lra.
    destruct (Rlt_dec (IZR r / IZR d) (1 / 2)) as [L | L].
    + apply H1 in L. destruct (Z.ltb_spec (2 * r) d); [reflexivity | lia].
    + destruct (Z.ltb_spec (2 * r) d) as [C | C];
        [exfalso; apply L, H1; lia |].
      destruct (Rlt_dec (1 / 2) (IZR r / IZR d)) as [G | G].
      * apply H2 in G. destruct (Z.ltb_spec d (2 * r)); [reflexivity | lia].
      * destruct (Z.ltb_spec d (2 * r)) as [C' | C'];
          [exfalso; apply G, H2; lia | reflexivity].
Qed.

Lemma int_round_finite (v : float) :
  is_finite v = true ->
  int_round v = Returns (round_half_even (float_value v)).
Proof.
  rewrite is_finite_SF. unfold int_round, float_value.
  destruct (Prim2SF v) as [s | s | | s m e]; try discriminate; intros _.
  - now rewrite round_half_even_IZR.
  - f_equal. destruct s; simpl cond_Zopp.
    + rewrite rhe_dyadic_spec, <- round_half_even_opp. f_equal.
      change (Z.neg m) with (- Z.pos m). rewrite opp_IZR. lra.
    + apply rhe_dyadic_spec.
Qed.

Lemma int_round_is_nan (v : float) :
  is_nan v = true -> int_round v = Raises ValueError.
Proof. intros H. now rewrite (nan_unique _ H). Qed.

Lemma int_round_is_infinity (v : float) :
  is_infinity v = true -> int_round v = Raises OverflowError.
Proof.
  rewrite is_infinity_SF. unfold int_round.
  now destruct (Prim2SF v).
Qed.

Lemma int_round_cases (v : float) :
  (is_finite v = true ->
     exists z, int_round v = Returns z /\ nearest_even (float_value v) z)
  /\ (is_nan v = true -> int_round v = Raises ValueError)
  /\ (is_infinity v = true -> int_round v = Raises OverflowError).
Proof.
  repeat split.
  - intros H. eexists. split; [now apply int_round_finite |].
    apply round_half_even_nearest.
  - apply int_round_is_nan.
  - apply int_round_is_infinity.
Qed.

Lemma float_value_12_5 : float_value 12.5 = (12 + 1 / 2)%R.
Proof.
  unfold float_value.
  change (Prim2SF 12.5) with (S754_finite false 7036874417766400 (-49)).
  cbv beta iota. cbn [cond_Zopp]. rewrite powerRZ_2_neg by lia.
  change (2 ^ (- -49)) with 562949953421312. field.
Qed.

(** * Series on a line *)












(** * The filter *)




(** * The claims on binary64 *)

(** ** The range of the scores *)

(** C1: the scores leave the documented ranges.  With the default [alpha],
    [trend_score([0.0, 35 * 2.0**-541])] computes [rho = 1.09375] (the
    squared deviations are rounded to the smallest subnormal number) and
    returns 131; with a negative exponent, [trend_score([0,2,1], alpha=-1)]
    and [mean_rev_score([0,1], beta=-2)] return 200. *)
Theorem score_out_of_range :
  pearson (floats [0; 0x23p-541]%float) = Returns 1.09375%float
  /\ trend_score (floats [0; 0x23p-541]%float) default_alpha = Returns 131
  /\ trend_score (ints [0; 2; 1]) (-1) = Returns 200
  /\ mean_rev_score (ints [0; 1]) (-2) = Returns 200.
Proof. repeat split; vm_compute; reflexivity. Qed.

(** ** Lists of identical values *)




(** ** Series on a line *)




(** ** Rounding *)

(** C5, as stated, fails at an exact half: the computed values of both calls
    below are exactly 12.5, rounding half away from zero gives 13, and the
    calls return 12. *)
Lemma rounding_not_half_away :
  mr_exponent (ints [0; 1]) 6 = Returns (-3)%float
  /\ mean_rev_value (-3) = Returns 12.5%float
  /\ mean_rev_score (ints [0; 1]) 6 = Returns 12
  /\ pearson (ints [0; 2; 1]) = Returns 0.5%float
  /\ trend_value 0.5 default_alpha = Returns 12.5%float
  /\ trend_score (ints [0; 2; 1]) default_alpha = Returns 12
  /\ float_value 12.5 = (12 + 1 / 2)%R
  /\ round_half_away (12 + 1 / 2) = 13.
Proof.
  repeat split; try (vm_compute; reflexivity).
  - exact float_value_12_5.
  - exact round_half_away_tie_12.
Qed.

(** C5, amended: the value the code computes in binary64,
    [100 * sign(rho) * |rho|^alpha] or [100 * 2^(-beta*x_s/qv)], is rounded,
    when finite, to the nearest integer, an exact half going to the even
    neighbour; a not-a-number raises [ValueError] and an infinity
    [OverflowError]. *)
Theorem scores_round_half_even (x : list num) (alpha beta : float) :
  (forall rho v, pearson x = Returns rho -> trend_value rho alpha = Returns v ->
     (is_finite v = true ->
        exists z, trend_score x alpha = Returns z
                  /\ nearest_even (float_value v) z)
     /\ (is_nan v = true -> trend_score x alpha = Raises ValueError)
     /\ (is_infinity v = true -> trend_score x alpha = Raises OverflowError))
  /\ (forall e v, mr_exponent x beta = Returns e ->
                  mean_rev_value e = Returns v ->
     (is_finite v = true ->
        exists z, mean_rev_score x beta = Returns z
                  /\ nearest_even (float_value v) z)
     /\ (is_nan v = true -> mean_rev_score x beta = Raises ValueError)
     /\ (is_infinity v = true ->
           mean_rev_score x beta = Raises OverflowError)).
Proof.
  split.
  - intros rho v Hr Hv.
    assert (trend_score x alpha = int_round v) as ->.
    { unfold trend_score, score_of_rho. rewrite Hr. simpl. now rewrite Hv. }
    apply int_round_cases.
  - intros e v He Hv.
    assert (mean_rev_score x beta = int_round v) as ->.
    { unfold mean_rev_score. rewrite He. simpl. now rewrite Hv. }
    apply int_round_cases.
Qed.

Lemma scores_round_half_even_witness :
  (exists z, trend_score (ints [0; 2; 1]) default_alpha = Returns z
             /\ nearest_even (float_value 12.5) z)
  /\ (exists z, mean_rev_score (ints [0; 1]) 6 = Returns z
                /\ nearest_even (float_value 12.5) z).
Proof.
  destruct (scores_round_half_even (ints [0; 2; 1]) default_alpha 6)
    as [H1 _].
  destruct (scores_round_half_even (ints [0; 1]) default_alpha 6)
    as [_ H2].
  split.
  - apply (H1 0.5%float 12.5%float); reflexivity.
  - apply (H2 (-3)%float 12.5%float); reflexivity.
Defined.

(** ** Reversal *)




(** ** Affine maps of the values *)



(** * Further properties *)

(** X1: the trend score of the negated values [-x] is the negated score of
    [x]; an exception stays the same. *)
Theorem trend_score_negated (x : list num) (alpha : float) :
  trend_score (negate x) alpha = omap Z.opp (trend_score x alpha).
Proof. apply orel_opp_omap, trend_score_nneg, negate_nneg. Qed.

(** X2: when the filter leaves no value, both functions raise
    [ZeroDivisionError]. *)
Theorem no_value_left (x : list num) (alpha beta : float) :
  dropna x = Returns [] ->
  trend_score x alpha = Raises ZeroDivisionError
  /\ mean_rev_score x beta = Raises ZeroDivisionError.
Proof.
  intros H. unfold trend_score, pearson, mean_rev_score, mr_exponent.
  rewrite H. split; reflexivity.
Qed.

Lemma no_value_left_witness :
  trend_score (floats [nan; nan]) default_alpha = Raises ZeroDivisionError
  /\ mean_rev_score (floats [nan; nan]) default_beta
     = Raises ZeroDivisionError.
Proof. apply no_value_left. reflexivity. Defined.



End B64Theory.
